(** * A verification of [@isaacs/cached]: [cached] and [cachedMtime]

    The development embeds [src/index.ts] shallowly.  The two exported
    functions are translated as effectful programs in a small monad that
    threads the mutable state (the backing stores and the outside world),
    propagates JavaScript exceptions, and records the calls made to the
    two external collaborators that the specification talks about: the
    wrapped function [fn] and the filesystem query [statSync].

    Numbers.  Every number handled by the code ([statFreqMs], the readings
    of [performance.now()], the modification times) is used only through
    [-1 * x], [x - y], [x > y] and [x !== y].  They are modelled as
    integers ([Z], a fixed unit of time).  [getMtime] computes with exact
    arithmetic; [getMtime64] rounds the subtraction of its guard to double
    precision, which differs from the exact one only beyond [2^53]
    ([getMtime64_exact]).  The non-finite values of a JavaScript number
    ([NaN], [Infinity]) are outside the model.

    Closures.  [cached] is given a function of the outside world;
    [cached_closure] is the same wrapper around a function that can also
    reach the store, and agrees with [cached] on the functions that do not
    ([cached_closure_oblivious]). *)

From Stdlib Require Import ZArith List Lia.
From stdpp Require Import base option gmap strings list fin_maps.

Local Open Scope Z_scope.

(** ** JavaScript values and completions *)

(** The values that flow through the memoizer: what [fn] returns, what a
    store holds, and what is thrown. *)
Inductive value : Type :=
  | VUndefined
  | VNumber (n : Z)
  | VString (s : string)
  | VBoolean (b : bool).

(** How a call ends: it returns, or it throws. *)
Inductive completion (A : Type) : Type :=
  | Normal (a : A)
  | Throw (e : value).
Arguments Normal {A} a.
Arguments Throw {A} e.

(** ** The effect monad

    A computation runs on a state [S], ends in a completion, leaves a
    state behind (mutations made before a [Throw] are kept, as in
    JavaScript) and emits the list of external calls it made, in order. *)
Definition Eff (S E A : Type) : Type := S → completion A * S * list E.

Definition eff_ret {S E A} (a : A) : Eff S E A :=
  λ s, (Normal a, s, []).

Definition eff_bind {S E A B} (k : A → Eff S E B) (m : Eff S E A) : Eff S E B :=
  λ s, match m s with
       | (Normal a, s1, ev1) =>
           match k a s1 with (r, s2, ev2) => (r, s2, ev1 ++ ev2) end
       | (Throw e, s1, ev1) => (Throw e, s1, ev1)
       end.

#[export] Instance Eff_ret {S E} : MRet (Eff S E) := @eff_ret S E.
#[export] Instance Eff_bind {S E} : MBind (Eff S E) := @eff_bind S E.

(** Read a component of the state. *)
Definition gets {S E A} (f : S → A) : Eff S E A :=
  λ s, (Normal (f s), s, []).

(** Mutate the state in place. *)
Definition modify {S E} (f : S → S) : Eff S E unit :=
  λ s, (Normal tt, f s, []).

(** Run a computation over a part of the state, renaming its events. *)
Definition zoom {S1 S2 E1 E2 A} (view : S2 → S1) (update : S1 → S2 → S2)
    (inj : E1 → E2) (m : Eff S1 E1 A) : Eff S2 E2 A :=
  λ s, match m (view s) with (r, s1, ev) => (r, update s1 s, inj <$> ev) end.

(** [catcher(f)] of [@isaacs/catcher]: the result of [f()], or [undefined]
    when [f] throws. *)
Definition catcher {S E A} (m : Eff S E A) : Eff S E (option A) :=
  λ s, match m s with
       | (Normal a, s1, ev) => (Normal (Some a), s1, ev)
       | (Throw _, s1, ev) => (Normal None, s1, ev)
       end.

(** Projections of a run. *)
Definition outcome {A S E} (r : completion A * S * list E) : completion A := r.1.1.
Definition final {A S E} (r : completion A * S * list E) : S := r.1.2.
Definition events {A S E} (r : completion A * S * list E) : list E := r.2.

(** ** The backing store: [interface MapLike<K, V>]

    [ml_get] returns [V | undefined] ([None] is [undefined]); [ml_set]
    returns the store; [ml_delete] returns a boolean and the store.  The
    observers [ml_get] and [ml_has] leave the store as it is. *)
Class MapLike (K V C : Type) : Type := {
  ml_get : K → C → option V;
  ml_has : K → C → bool;
  ml_set : K → V → C → C;
  ml_delete : K → C → bool * C;
}.

(** The default store, [new Map<K, V>()]. *)
#[export] Instance Map_MapLike {K} `{Countable K} {V} : MapLike K V (gmap K V) := {
  ml_get k m := m !! k;
  ml_has k m := bool_decide (is_Some (m !! k));
  ml_set k v m := <[k := v]> m;
  ml_delete k m := (bool_decide (is_Some (m !! k)), delete k m);
}.

(** What a store must do for an entry that was just set: report it and
    give it back.  [Map] does. *)
Class LawfulSet (K V C : Type) `{!MapLike K V C} : Prop := {
  has_set : ∀ k v c, ml_has k (ml_set k v c) = true;
  get_set : ∀ k v c, ml_get k (ml_set k v c) = Some v;
}.

(** ** [cached] *)

(** [cache.get(arg) as R]: the cast keeps whatever [get] returned, so an
    absent value reads as [undefined]. *)
Definition as_R (o : option value) : value := default VUndefined o.

Section Memoizer.
Context {A C W : Type} `{!MapLike A value C}.

(** The wrapped function: it may read and change the outside world [W]
    and may throw. *)
Variable fn : A → W → completion value * W.

(** [fn(arg)]; the call is recorded. *)
Definition invoke (arg : A) : Eff (C * W) A value :=
  λ s, match fn arg s.2 with (r, w) => (r, (s.1, w), [arg]) end.

(** The arrow function returned by [cached(fn, cache)]. *)
Definition cached (arg : A) : Eff (C * W) A value :=
  has ← gets (λ s, ml_has arg s.1);
  if has : bool then
    gets (λ s, as_R (ml_get arg s.1))
  else
    r ← invoke arg;
    modify (λ s, (ml_set arg r s.1, s.2));;
    mret r.

(** Two calls in a row with the same argument: at most one invocation of
    [fn], the same result, and [cache.get(arg)] gives it too. *)
Definition memoized_twice (arg : A) (c : C) (w : W) : Prop :=
  let r1 := cached arg (c, w) in
  let r2 := cached arg (final r1) in
  (length (events r1 ++ events r2) ≤ 1)%nat ∧
  outcome r2 = outcome r1 ∧
  Normal (as_R (ml_get arg (final r2).1)) = outcome r1.

End Memoizer.

(** ** [cachedMtime] *)

(** The part of [fs.Stats] that the code reads. *)
Record Stats : Type := { mtime : Z }.

(** The two external collaborators of the mtime-gated memoizer, as
    observations of the outside world: the monotonic clock
    [performance.now()] and the metadata query [statSync(path)], which
    throws when the path cannot be examined. *)
Class Platform (W : Type) : Type := {
  performance_now : W → Z;
  statSync : string → W → completion Stats;
}.

(** The objects a gated wrapper closes over: the Result Cache, the
    Modification Cache and the outside world.  Wrappers that were given
    the same stores run on the same [Heap]. *)
Record Heap (C MC W : Type) : Type := mkHeap {
  cache : C;
  mtimeCache : MC;
  env : W;
}.
Arguments mkHeap {C MC W} _ _ _.
Arguments cache {C MC W} _.
Arguments mtimeCache {C MC W} _.
Arguments env {C MC W} _.

(** The external calls of a gated wrapper. *)
Inductive event : Type :=
  | Stat (path : string)
  | Invoke (path : string).

Section MtimeGated.
Context {C MC W : Type}.
Context `{!MapLike string value C} `{!MapLike string (Z * Z) MC} `{!Platform W}.

Variable fn : string → W → completion value * W.
Variable statFreqMs : Z.

(** [Number(statSync(path).mtime)]; the query is recorded. *)
Definition stat_mtime (path : string) : Eff (Heap C MC W) event Z :=
  λ h, (match statSync path (env h) with
        | Normal st => Normal (mtime st)
        | Throw e => Throw e
        end, h, [Stat path]).

(** [mtimeCache.get(path) || [0, -1 * statFreqMs]] *)
Definition lookup_cm (path : string) (h : Heap C MC W) : Z * Z :=
  default (0, -1 * statFreqMs) (ml_get path (mtimeCache h)).

Definition cache_delete (path : string) (h : Heap C MC W) : Heap C MC W :=
  mkHeap (ml_delete path (cache h)).2 (mtimeCache h) (env h).

Definition mtimeCache_set (path : string) (v : Z * Z) (h : Heap C MC W) : Heap C MC W :=
  mkHeap (cache h) (ml_set path v (mtimeCache h)) (env h).

Definition mtimeCache_delete (path : string) (h : Heap C MC W) : Heap C MC W :=
  mkHeap (cache h) (ml_delete path (mtimeCache h)).2 (env h).

(** [getMtime]; the result is [number | undefined]. *)
Definition getMtime (path : string) : Eff (Heap C MC W) event (option Z) :=
  now ← gets (λ h, performance_now (env h));
  cm ← gets (lookup_cm path);
  if statFreqMs <? now - cm.2 then
    m ← catcher (stat_mtime path);
    match m with
    | Some m =>
        (if negb (m =? cm.1) then modify (cache_delete path) else mret tt);;
        modify (mtimeCache_set path (m, now));;
        mret (Some m)
    | None =>
        modify (mtimeCache_delete path);;
        modify (cache_delete path);;
        mret None
    end
  else
    mret (Some cm.1).

(** [cfn = cached(fn, cache)]: the internal memoizer, on the Result Cache
    of the heap. *)
Definition cfn (path : string) : Eff (Heap C MC W) event value :=
  zoom (λ h, (cache h, env h))
       (λ s h, mkHeap s.1 (mtimeCache h) s.2)
       Invoke
       (cached fn path).

(** The arrow function returned by [cachedMtime]. *)
Definition cachedMtime (path : string) : Eff (Heap C MC W) event value :=
  getMtime path;;
  cfn path.

(** Two calls of [getMtime] for one path, the second in the world [w2]:
    together they make at most one filesystem query when the clock
    readings are within [statFreqMs] of each other. *)
Definition one_query_per_window (path : string) (h : Heap C MC W) (w2 : W) : Prop :=
  let r1 := getMtime path h in
  let r2 := getMtime path (mkHeap (cache (final r1)) (mtimeCache (final r1)) w2) in
  performance_now w2 - performance_now (env h) ≤ statFreqMs →
  (length (events r1 ++ events r2) ≤ 1)%nat.

End MtimeGated.

(** ** Runs of gated wrappers, with the provenance of cached results

    The invariant of the data model speaks of the call that produced a
    Result Cache entry.  The code keeps no such record, so the runs below
    carry it as ghost state next to the heap: for every path, the
    provenance of its current Result Cache entry.  The ghost state is
    computed from what the code did and never read by it. *)

(** The on-disk modification value of a path, if it can be examined. *)
Definition disk_mtime {W} `{!Platform W} (path : string) (w : W) : option Z :=
  match statSync path w with
  | Normal st => Some (mtime st)
  | Throw _ => None
  end.

(** Where a Result Cache entry comes from: the on-disk modification value
    at the moment [fn] was invoked, and whether the [getMtime] of the
    producing call obtained a modification value from the filesystem. *)
Record origin : Type := mkOrigin {
  disk_at_call : option Z;
  checked : bool;
}.

(** What can happen to the shared stores: calls of [getMtime] and of the
    wrapped function, through wrappers of any interval, and changes of the
    outside world in between (files are written, time passes). *)
Inductive op (W : Type) : Type :=
  | GetMtime (statFreqMs : Z) (path : string)
  | Call (statFreqMs : Z) (path : string)
  | Outside (w : W).
Arguments GetMtime {W} _ _.
Arguments Call {W} _ _.
Arguments Outside {W} _.

Section Provenance.
Context {W : Type} `{!Platform W}.
Variable fn : string → W → completion value * W.

Abbreviation heap := (Heap (gmap string value) (gmap string (Z * Z)) W).
Abbreviation config := (heap * gmap string origin)%type.

(** Did this run of [getMtime] obtain its value by a real query? *)
Definition obtained_by_query (r : completion (option Z) * heap * list event) : bool :=
  match events r, outcome r with
  | _ :: _, Normal (Some _) => true
  | _, _ => false
  end.

(** Did this run of the internal memoizer store a fresh result? *)
Definition stored_fresh (r : completion value * heap * list event) : bool :=
  match events r, outcome r with
  | _ :: _, Normal _ => true
  | _, _ => false
  end.

(** Forget the provenance of an entry that is gone. *)
Definition prune (path : string) (h : heap) (g : gmap string origin) : gmap string origin :=
  match cache h !! path with
  | Some _ => g
  | None => delete path g
  end.

Definition step (o : op W) (cfg : config) : config :=
  match o with
  | Outside w => (mkHeap (cache cfg.1) (mtimeCache cfg.1) w, cfg.2)
  | GetMtime statFreqMs path =>
      let h1 := final (getMtime statFreqMs path cfg.1) in
      (h1, prune path h1 cfg.2)
  | Call statFreqMs path =>
      let r1 := getMtime statFreqMs path cfg.1 in
      let h1 := final r1 in
      let g1 := prune path h1 cfg.2 in
      let r2 := cfn fn path h1 in
      (final r2,
       if stored_fresh r2
       then <[path := mkOrigin (disk_mtime path (env h1)) (obtained_by_query r1)]> g1
       else g1)
  end.

Definition run (ops : list (op W)) (cfg : config) : config :=
  fold_left (λ c o, step o c) ops cfg.

(** Both stores empty, no provenance. *)
Definition initial (w : W) : config := (mkHeap ∅ ∅ w, ∅).

(** The invariant as the data model words it. *)
Definition never_stale (cfg : config) : Prop :=
  ∀ P M T, mtimeCache cfg.1 !! P = Some (M, T) →
    cache cfg.1 !! P = None ∨
    ∃ o, cfg.2 !! P = Some o ∧ disk_at_call o = Some M.

(** The invariant that the code keeps. *)
Definition never_stale_when_checked (cfg : config) : Prop :=
  ∀ P M T, mtimeCache cfg.1 !! P = Some (M, T) →
    cache cfg.1 !! P = None ∨
    ∃ o, cfg.2 !! P = Some o ∧ (disk_at_call o = Some M ∨ checked o = false).

(** The inductive strengthening: every entry has a provenance, and an
    entry produced under a real query is paired with the value queried. *)
Definition provenance_ok (cfg : config) : Prop :=
  (∀ P, is_Some (cache cfg.1 !! P) → is_Some (cfg.2 !! P)) ∧
  (∀ P o, cfg.2 !! P = Some o → checked o = true →
     ∃ M T, mtimeCache cfg.1 !! P = Some (M, T) ∧ disk_at_call o = Some M).

End Provenance.

(** ** A concrete outside world: a clock and a directory of files *)

Record World : Type := mkWorld {
  clock : Z;
  files : gmap string (Z * string);   (* path ↦ (mtime, contents) *)
}.

Definition ENOENT : value := VString "ENOENT".

#[export] Instance World_Platform : Platform World := {
  performance_now := clock;
  statSync path w :=
    match files w !! path with
    | Some (m, _) => Normal {| mtime := m |}
    | None => Throw ENOENT
    end;
}.

(** [(path) => readFileSync(path, 'utf8')] *)
Definition readFileSync (path : string) (w : World) : completion value * World :=
  match files w !! path with
  | Some (_, contents) => (Normal (VString contents), w)
  | None => (Throw ENOENT, w)
  end.

(** [(a: number) => a * a], in any world. *)
Definition square {W} (a : Z) (w : W) : completion value * W :=
  (Normal (VNumber (a * a)), w).

(** A function that always throws. *)
Definition failing {A W} (a : A) (w : W) : completion value * W :=
  (Throw ENOENT, w).

(** ** Series of calls *)

(** A function without effects that never throws, such as
    [(a: number) => a * a]. *)
Definition pure_fn {A W} (f : A → value) (a : A) (w : W) : completion value * W :=
  (Normal (f a), w).

(** The wrapper called once per argument of a list, in order, by a caller
    that goes on after a throw.  The result lists the completions, the
    final store and world, and the invocations of [fn]. *)
Fixpoint call_each {A C W} `{!MapLike A value C}
    (fn : A → W → completion value * W) (args : list A) (s : C * W)
    : list (completion value) * (C * W) * list A :=
  match args with
  | [] => ([], s, [])
  | a :: rest =>
      let r := cached fn a s in
      let rs := call_each fn rest (final r) in
      (outcome r :: rs.1.1, rs.1.2, events r ++ rs.2)
  end.

(** ** Double-precision arithmetic

    A JavaScript number is an IEEE 754 binary64 value, and [x - y] is the
    exact difference rounded to the nearest such value, ties to even.  For
    integer-valued numbers below the overflow threshold this is integer
    arithmetic followed by [round53]; [-1 * x], [x > y] and [x !== y] are
    exact. *)

(** The binary64 value nearest to an integer: integers up to [2^53] in
    magnitude are kept; beyond, the magnitude is rounded to 53
    significant bits, ties to the even significand. *)
Definition round53 (z : Z) : Z :=
  let a := Z.abs z in
  if a <? 2 ^ 53 then z
  else
    let e := Z.log2 a - 52 in
    let q := a / 2 ^ e in
    let r := a mod 2 ^ e in
    let half := 2 ^ (e - 1) in
    let q' := if r <? half then q
              else if half <? r then q + 1
              else if Z.even q then q else q + 1 in
    Z.sgn z * (q' * 2 ^ e).

(** [x - y] on numbers. *)
Definition number_sub (x y : Z) : Z := round53 (x - y).

Section MtimeGated64.
Context {C MC W : Type}.
Context `{!MapLike string value C} `{!MapLike string (Z * Z) MC} `{!Platform W}.
Variable statFreqMs : Z.

(** [getMtime] with the subtraction of the guard in double precision;
    everything else as in [getMtime]. *)
Definition getMtime64 (path : string) : Eff (Heap C MC W) event (option Z) :=
  now ← gets (λ h, performance_now (env h));
  cm ← gets (lookup_cm statFreqMs path);
  if statFreqMs <? number_sub now cm.2 then
    m ← catcher (stat_mtime path);
    match m with
    | Some m =>
        (if negb (m =? cm.1) then modify (cache_delete path) else mret tt);;
        modify (mtimeCache_set path (m, now));;
        mret (Some m)
    | None =>
        modify (mtimeCache_delete path);;
        modify (cache_delete path);;
        mret None
    end
  else
    mret (Some cm.1).

End MtimeGated64.

(** ** [cached] around a closure

    The function given to [cached] is a closure: besides the outside
    world it can reach the store, directly through [.cache] or by calling
    the wrapper again, as a recursive function memoized under its own name
    does.  Here [fn] is a computation on the store and the world, which
    reports the invocations it causes. *)

Section Closure.
Context {A C W : Type} `{!MapLike A value C}.
Variable fn : A → Eff (C * W) A value.

(** [fn(arg)]: the call is recorded, then the calls [fn] makes. *)
Definition invoke_closure (arg : A) : Eff (C * W) A value :=
  λ s, match fn arg s with (r, s', ev) => (r, s', arg :: ev) end.

(** The arrow function returned by [cached(fn, cache)]. *)
Definition cached_closure (arg : A) : Eff (C * W) A value :=
  has ← gets (λ s, ml_has arg s.1);
  if has : bool then
    gets (λ s, as_R (ml_get arg s.1))
  else
    r ← invoke_closure arg;
    modify (λ s, (ml_set arg r s.1, s.2));;
    mret r.

End Closure.

(** A function that does not reach the store, as a closure. *)
Definition oblivious {A C W} (fn : A → W → completion value * W)
    (arg : A) : Eff (C * W) A value :=
  λ s, match fn arg s.2 with (r, w) => (r, (s.1, w), []) end.

(** [a + b] on numbers. *)
Definition number_add (a b : value) : value :=
  match a, b with
  | VNumber x, VNumber y => VNumber (x + y)
  | _, _ => VUndefined
  end.

(** [n => n < 2 ? n : fib(n - 1) + fib(n - 2)], where [fib] is the
    memoized function itself. *)
Definition fib_body {S} (fib : Z → Eff S Z value) (n : Z) : Eff S Z value :=
  if n <? 2 then mret (VNumber n)
  else
    a ← fib (n - 1);
    b ← fib (n - 2);
    mret (number_add a b).

(** [const fib = cached(n => ..., cache)], unfolded to a given depth of
    the call stack. *)
Fixpoint fib {W} (depth : nat) (n : Z) : Eff (gmap Z value * W) Z value :=
  match depth with
  | O => λ s, (Throw (VString "RangeError"), s, [])
  | S depth' => cached_closure (fib_body (fib depth')) n
  end.

(** * Properties *)

(** ** The store [Map] *)

#[export] Instance Map_LawfulSet {K} `{Countable K} {V} : LawfulSet K V (gmap K V).
Proof.
  split; intros k v c; cbn.
  - rewrite lookup_insert_eq. by apply bool_decide_eq_true_2.
  - apply lookup_insert_eq.
Qed.

(** ** The memoizer *)

Section MemoizerFacts.
Context {A C W : Type} `{!MapLike A value C}.
Variable fn : A → W → completion value * W.

(** The wrapper, case by case. *)
Lemma cached_run (arg : A) (c : C) (w : W) :
  cached fn arg (c, w) =
    if ml_has arg c then (Normal (as_R (ml_get arg c)), (c, w), [])
    else match fn arg w with
         | (Normal r, w') => (Normal r, (ml_set arg r c, w'), [arg])
         | (Throw e, w') => (Throw e, (c, w'), [arg])
         end.
Proof.
  unfold cached, mbind, Eff_bind, eff_bind, gets, invoke, modify, mret, Eff_ret, eff_ret.
  cbn. destruct (ml_has arg c); [done|].
  cbn. by destruct (fn arg w) as [[r|e] w'].
Qed.


(** C5.  When [fn] is invoked and throws, the wrapper throws the same
    value, the store is left as it was, and nothing else happens. *)
Theorem cached_fn_throws (arg : A) (c : C) (w w' : W) (e : value) :
  ml_has arg c = false →
  fn arg w = (Throw e, w') →
  cached fn arg (c, w) = (Throw e, (c, w'), [arg]).
Proof. intros Hhas Hfn. by rewrite cached_run, Hhas, Hfn. Qed.

(** The converse: the wrapper throws only what [fn] threw, on a miss. *)
Lemma cached_throws_inv (arg : A) (c : C) (w : W) (e : value) :
  outcome (cached fn arg (c, w)) = Throw e →
  ml_has arg c = false ∧ (fn arg w).1 = Throw e ∧ (final (cached fn arg (c, w))).1 = c.
Proof.
  rewrite cached_run. destruct (ml_has arg c); [done|].
  by destruct (fn arg w) as [[r|e'] w'].
Qed.

(** C1, amended.  When the first of two calls with the same argument
    returns, [fn] is invoked at most once over the two calls, the second
    call returns the same value, and [cache.get(arg)] gives that value. *)
Theorem cached_twice `{!LawfulSet A value C} (arg : A) (c : C) (w : W) (r : value) :
  outcome (cached fn arg (c, w)) = Normal r →
  memoized_twice fn arg c w.
Proof.
  unfold memoized_twice. rewrite cached_run.
  destruct (ml_has arg c) eqn:Hhas; cbn.
  - intros _. rewrite cached_run, Hhas. cbn. split; [lia|done].
  - destruct (fn arg w) as [[v|e] w'] eqn:Hfn; [|done].
    intros _. cbn. rewrite cached_run, has_set. cbn. rewrite get_set. cbn. split; [lia|done].
Qed.

End MemoizerFacts.


(** C5 at an empty [Map]. *)
Lemma cached_fn_throws_witness :
  cached (W := unit) failing "k" (∅ : gmap string value, tt) = (Throw ENOENT, (∅, tt), ["k"]).
Proof. apply (cached_fn_throws failing "k" ∅ tt tt ENOENT); reflexivity. Defined.

(** C1 at the squaring function, as in the test suite. *)
Lemma cached_twice_witness :
  memoized_twice (W := unit) square 2 (∅ : gmap Z value) tt.
Proof. apply (cached_twice square 2 ∅ tt (VNumber 4)). reflexivity. Defined.

(** C1 as stated fails at a function that throws: nothing is stored, so
    the second call invokes it again. *)
Lemma cached_twice_failing_fn :
  ¬ memoized_twice (W := unit) failing "k" (∅ : gmap string value) tt.
Proof. intros [Hcalls _]. vm_compute in Hcalls. lia. Qed.

(** ** The mtime-gated memoizer, for any stores *)

Section GatedFacts.
Context {C MC W : Type}.
Context `{!MapLike string value C} `{!MapLike string (Z * Z) MC} `{!Platform W}.
Variable fn : string → W → completion value * W.
Variable statFreqMs : Z.

(** [getMtime], case by case. *)
Lemma getMtime_run (path : string) (h : Heap C MC W) :
  getMtime statFreqMs path h =
    let now := performance_now (env h) in
    let cm := lookup_cm statFreqMs path h in
    if statFreqMs <? now - cm.2 then
      match statSync path (env h) with
      | Normal st =>
          (Normal (Some (mtime st)),
           mtimeCache_set path (mtime st, now)
             (if negb (mtime st =? cm.1) then cache_delete path h else h),
           [Stat path])
      | Throw _ =>
          (Normal None, cache_delete path (mtimeCache_delete path h), [Stat path])
      end
    else (Normal (Some cm.1), h, []).
Proof.
  unfold getMtime, mbind, Eff_bind, eff_bind, gets, modify, mret, Eff_ret, eff_ret,
    catcher, stat_mtime.
  cbn. destruct (statFreqMs <? _); [|done].
  destruct (statSync path (env h)) as [st|e]; [|done].
  by destruct (negb _).
Qed.

(** [getMtime] never throws and queries the filesystem at most once. *)
Lemma getMtime_returns (path : string) (h : Heap C MC W) :
  ∃ m, outcome (getMtime statFreqMs path h) = Normal m.
Proof.
  rewrite getMtime_run. cbn. destruct (statFreqMs <? _); [|by eexists].
  destruct (statSync path (env h)); by eexists.
Qed.

Lemma getMtime_events (path : string) (h : Heap C MC W) :
  events (getMtime statFreqMs path h) =
    if statFreqMs <? performance_now (env h) - (lookup_cm statFreqMs path h).2
    then [Stat path] else [].
Proof.
  rewrite getMtime_run. cbn. destruct (statFreqMs <? _); [|done].
  by destruct (statSync path (env h)).
Qed.

Lemma getMtime_env (path : string) (h : Heap C MC W) :
  env (final (getMtime statFreqMs path h)) = env h.
Proof.
  rewrite getMtime_run. cbn. destruct (statFreqMs <? _); [|done].
  destruct (statSync path (env h)); [|done].
  by destruct (negb _).
Qed.

(** C3.  When [getMtime] queries the filesystem and the query gives the
    modification time [m]: the result is [m]; [(m, now)] is stored in the
    Modification Cache; and if [m] differs from the cached modification
    value (from [0] when the path has no entry) the path is deleted from
    the Result Cache, which is otherwise left alone. *)
Theorem getMtime_query_succeeds (path : string) (h : Heap C MC W) (st : Stats) :
  events (getMtime statFreqMs path h) = [Stat path] →
  statSync path (env h) = Normal st →
  let r := getMtime statFreqMs path h in
  let cached_m := match ml_get path (mtimeCache h) with Some (M, _) => M | None => 0 end in
  outcome r = Normal (Some (mtime st)) ∧
  mtimeCache (final r) = ml_set path (mtime st, performance_now (env h)) (mtimeCache h) ∧
  (mtime st ≠ cached_m → cache (final r) = (ml_delete path (cache h)).2) ∧
  (mtime st = cached_m → cache (final r) = cache h).
Proof.
  intros Hev Hst. cbn zeta. revert Hev. rewrite getMtime_run. cbn zeta.
  destruct (statFreqMs <? _); [|done]. rewrite Hst. intros _.
  assert ((lookup_cm statFreqMs path h).1
          = match ml_get path (mtimeCache h) with Some (M, _) => M | None => 0 end) as <-.
  { unfold lookup_cm. by destruct (ml_get path (mtimeCache h)) as [[M T]|]. }
  destruct (Z.eqb_spec (mtime st) (lookup_cm statFreqMs path h).1) as [Heq|Hne]; cbn;
    repeat split; done.
Qed.

(** C4.  When [getMtime] queries the filesystem and the query fails, the
    fault is absorbed: the call returns [undefined], having deleted the
    path from the Modification Cache and from the Result Cache. *)
Theorem getMtime_query_fails (path : string) (h : Heap C MC W) (e : value) :
  events (getMtime statFreqMs path h) = [Stat path] →
  statSync path (env h) = Throw e →
  getMtime statFreqMs path h =
    (Normal None,
     mkHeap (ml_delete path (cache h)).2 (ml_delete path (mtimeCache h)).2 (env h),
     [Stat path]).
Proof.
  intros Hev Hst. revert Hev. rewrite getMtime_run. cbn zeta.
  destruct (statFreqMs <? _); [|done]. by rewrite Hst.
Qed.

(** C6, amended.  Within the window of an entry [(M, T)] the call returns
    [M], changes nothing and makes no query.  Consequently two calls whose
    clock readings are within [statFreqMs] of each other make at most one
    query between them, unless the first one returned [undefined] (its
    query failed, which removes the entry). *)
Theorem getMtime_rate_limited `{!LawfulSet string (Z * Z) MC}
    (path : string) (h : Heap C MC W) :
  (∀ M T, ml_get path (mtimeCache h) = Some (M, T) →
          performance_now (env h) - T ≤ statFreqMs →
          getMtime statFreqMs path h = (Normal (Some M), h, [])) ∧
  (∀ w2, outcome (getMtime statFreqMs path h) ≠ Normal None →
         one_query_per_window statFreqMs path h w2).
Proof.
  split.
  - intros M T Hget Hle. rewrite getMtime_run. unfold lookup_cm. rewrite Hget. cbn.
    by destruct (Z.ltb_spec statFreqMs (performance_now (env h) - T)); [lia|].
  - intros w2 Hknown. unfold one_query_per_window. intros Hle.
    rewrite length_app, (getMtime_events path (mkHeap _ _ w2)).
    revert Hknown. rewrite getMtime_run. cbn zeta.
    destruct (statFreqMs <? _).
    + destruct (statSync path (env h)) as [st|e]; [|done]. intros _. cbn.
      unfold lookup_cm. cbn. rewrite get_set. cbn.
      by destruct (Z.ltb_spec statFreqMs (performance_now w2 - performance_now (env h)));
        [lia|].
    + intros _. cbn. destruct (statFreqMs <? _); cbn; lia.
Qed.

(** The wrapped call as the sequence of its two steps. *)
Lemma cachedMtime_seq (path : string) (h : Heap C MC W) :
  cachedMtime fn statFreqMs path h =
    let r1 := getMtime statFreqMs path h in
    let r2 := cfn fn path (final r1) in
    (outcome r2, final r2, events r1 ++ events r2).
Proof.
  unfold cachedMtime, mbind, Eff_bind, eff_bind.
  destruct (getMtime_returns path h) as [m Hm].
  destruct (getMtime statFreqMs path h) as [[o1 h1] ev1]. cbn in Hm. subst o1. cbn.
  by destruct (cfn fn path h1) as [[o2 s2] ev2].
Qed.

(** C8.  The wrapped call runs [getMtime] to its end first, on every
    invocation and whatever the Result Cache holds; [getMtime] returns
    (it never throws), and then the internal memoizer runs on the stores
    as [getMtime] left them.  The call returns what the memoizer
    returns. *)
Theorem cachedMtime_run (path : string) (h : Heap C MC W) :
  let r1 := getMtime statFreqMs path h in
  let h1 := final r1 in
  let r2 := cached fn path (cache h1, env h1) in
  (∃ m, outcome r1 = Normal m) ∧
  cachedMtime fn statFreqMs path h =
    (outcome r2,
     mkHeap (final r2).1 (mtimeCache h1) (final r2).2,
     events r1 ++ (Invoke <$> events r2)).
Proof.
  cbn zeta. split; [apply getMtime_returns|].
  rewrite cachedMtime_seq. cbn zeta. unfold cfn, zoom.
  by destruct (cached fn path _) as [[o2 s2] ev2].
Qed.

End GatedFacts.

(** ** The mtime-gated memoizer on the default stores *)

Section MapFacts.
Context {W : Type} `{!Platform W}.
Variable fn : string → W → completion value * W.

Abbreviation heap := (Heap (gmap string value) (gmap string (Z * Z)) W).
Abbreviation config := (heap * gmap string origin)%type.

(** C10.  When [getMtime] queries the filesystem for a path: if the path
    has no Modification Cache entry and its on-disk modification value is
    not [0], its Result Cache entry is deleted; and a Result Cache entry
    is still there afterwards only if the query gave [0] with no
    Modification Cache entry, or gave the modification value of the entry
    that was there. *)
Theorem preseeded_result (statFreqMs : Z) (path : string) (h : heap) :
  events (getMtime statFreqMs path h) = [Stat path] →
  let h' := final (getMtime statFreqMs path h) in
  (mtimeCache h !! path = None →
   ∀ m, disk_mtime path (env h) = Some m → m ≠ 0 → cache h' !! path = None) ∧
  (is_Some (cache h' !! path) →
   (mtimeCache h !! path = None ∧ disk_mtime path (env h) = Some 0) ∨
   (∃ M T, mtimeCache h !! path = Some (M, T) ∧ disk_mtime path (env h) = Some M)).
Proof.
  intros Hev. cbn zeta. revert Hev. rewrite getMtime_run. cbn zeta.
  destruct (statFreqMs <? _); [|done]. unfold disk_mtime, lookup_cm.
  destruct (statSync path (env h)) as [st|e]; cbn; intros _.
  - split.
    + intros Hnone m [= <-] Hm. rewrite Hnone. cbn.
      destruct (Z.eqb_spec (mtime st) 0); [done|]. cbn. apply lookup_delete_eq.
    + destruct (mtimeCache h !! path) as [[M T]|]; cbn.
      * destruct (Z.eqb_spec (mtime st) M) as [->|]; cbn.
        -- intros _. right. by exists M, T.
        -- rewrite lookup_delete_eq. by intros [? ?].
      * destruct (Z.eqb_spec (mtime st) 0) as [->|]; cbn.
        -- intros _. by left.
        -- rewrite lookup_delete_eq. by intros [? ?].
  - split.
    + by intros _ m [=].
    + rewrite lookup_delete_eq. by intros [? ?].
Qed.

(** *** The invariant of the data model *)

(** The internal memoizer on the heap, case by case. *)
Lemma cfn_run (path : string) (h : heap) :
  cfn fn path h =
    match cache h !! path with
    | Some v => (Normal v, mkHeap (cache h) (mtimeCache h) (env h), [])
    | None =>
        match fn path (env h) with
        | (Normal r, w') =>
            (Normal r, mkHeap (<[path := r]> (cache h)) (mtimeCache h) w', [Invoke path])
        | (Throw e, w') =>
            (Throw e, mkHeap (cache h) (mtimeCache h) w', [Invoke path])
        end
    end.
Proof.
  unfold cfn, zoom. rewrite cached_run. cbn.
  destruct (cache h !! path) as [v|] eqn:Hc; cbn; [done|].
  by destruct (fn path (env h)) as [[r|e] w'].
Qed.

Lemma prune_Some (path : string) (h : heap) (g : gmap string origin) P o :
  prune path h g !! P = Some o → g !! P = Some o.
Proof.
  unfold prune. destruct (cache h !! path); [done|].
  rewrite lookup_delete_Some. by intros [_ ?].
Qed.

(** An operation on [path] that only removes Result Cache entries, keeps
    the Modification Cache of the other paths, and keeps the modification
    value of [path] whenever its Result Cache entry stays, preserves the
    strengthened invariant. *)
Lemma provenance_ok_shrink (path : string) (h h1 : heap) (g : gmap string origin) :
  provenance_ok (h, g) →
  (∀ P, is_Some (cache h1 !! P) → is_Some (cache h !! P)) →
  (∀ P, P ≠ path → mtimeCache h1 !! P = mtimeCache h !! P) →
  (∀ M T, mtimeCache h !! path = Some (M, T) → is_Some (cache h1 !! path) →
          ∃ T', mtimeCache h1 !! path = Some (M, T')) →
  provenance_ok (h1, prune path h1 g).
Proof.
  intros [Hcov Hchk] Hsub Hother Hsame. split; cbn [fst snd] in *.
  - intros P HP. unfold prune. destruct (cache h1 !! path) eqn:Hc; [by auto|].
    rewrite lookup_delete_ne; [by auto|]. intros ->. rewrite Hc in HP. by destruct HP.
  - intros P o Hg Hck. unfold prune in Hg.
    destruct (cache h1 !! path) eqn:Hc.
    + destruct (Hchk P o Hg Hck) as (M & T & HM & Hd).
      destruct (decide (P = path)) as [->|Hne].
      * destruct (Hsame M T HM) as [T' HT']; [by eexists|]. by exists M, T'.
      * exists M, T. by rewrite Hother.
    + apply lookup_delete_Some in Hg as [Hne Hg].
      destruct (Hchk P o Hg Hck) as (M & T & HM & Hd).
      exists M, T. by rewrite Hother.
Qed.

Lemma provenance_ok_getMtime (statFreqMs : Z) (path : string) (h : heap)
    (g : gmap string origin) :
  provenance_ok (h, g) →
  provenance_ok (final (getMtime statFreqMs path h),
                 prune path (final (getMtime statFreqMs path h)) g).
Proof.
  intros Hok. apply (provenance_ok_shrink path h); [done|..].
  - intros P. rewrite getMtime_run. cbn zeta.
    destruct (statFreqMs <? _); [|done].
    assert (is_Some (delete path (cache h) !! P) → is_Some (cache h !! P)) as Hdel.
    { destruct (decide (P = path)) as [->|Hne].
      - rewrite lookup_delete_eq. by intros [? ?].
      - by rewrite lookup_delete_ne. }
    destruct (statSync path (env h)) as [st|e]; cbn; [|done].
    by destruct (negb _).
  - intros P Hne. rewrite getMtime_run. cbn zeta.
    destruct (statFreqMs <? _); [|done].
    destruct (statSync path (env h)) as [st|e]; cbn.
    + destruct (negb _); cbn; by rewrite lookup_insert_ne.
    + by rewrite lookup_delete_ne.
  - intros M T HM. rewrite getMtime_run. cbn zeta. unfold lookup_cm.
    destruct (statFreqMs <? _); [|by exists T].
    destruct (statSync path (env h)) as [st|e]; cbn.
    + rewrite HM. cbn. destruct (Z.eqb_spec (mtime st) M) as [->|]; cbn.
      * intros _. eexists. apply lookup_insert_eq.
      * rewrite lookup_delete_eq. by intros [? ?].
    + rewrite lookup_delete_eq. by intros [? ?].
Qed.

(** A run of [getMtime] that obtained its value by a query leaves that
    value, the on-disk one, in the Modification Cache. *)
Lemma obtained_by_query_inv (statFreqMs : Z) (path : string) (h : heap) :
  obtained_by_query (getMtime statFreqMs path h) = true →
  ∃ M T, mtimeCache (final (getMtime statFreqMs path h)) !! path = Some (M, T) ∧
         disk_mtime path (env h) = Some M.
Proof.
  rewrite getMtime_run. cbn zeta. unfold obtained_by_query, disk_mtime.
  destruct (statFreqMs <? _); cbn; [|done].
  destruct (statSync path (env h)) as [st|e]; cbn; [|done].
  intros _. exists (mtime st), (performance_now (env h)).
  split; [|done]. destruct (negb _); cbn; apply lookup_insert_eq.
Qed.

Lemma provenance_ok_step (o : op W) (cfg : config) :
  provenance_ok cfg → provenance_ok (step fn o cfg).
Proof.
  destruct cfg as [h g]. destruct o as [s path|s path|w]; cbn [step fst snd].
  - apply provenance_ok_getMtime.
  - intros Hok. apply (provenance_ok_getMtime s path) in Hok.
    pose proof (obtained_by_query_inv s path h) as Hq.
    rewrite (getMtime_env s path h).
    destruct (obtained_by_query (getMtime s path h)).
    all: set (h1 := final (getMtime s path h)) in *.
    all: set (g1 := prune path h1 g) in *.
    all: destruct Hok as [Hcov Hchk]; cbn in Hcov, Hchk.
    all: rewrite cfn_run; unfold stored_fresh.
    all: destruct (cache h1 !! path) as [v|] eqn:Hc; cbn; [by split|].
    all: destruct (fn path (env h1)) as [[r|e] w']; cbn; [|by split].
    all: split; cbn.
    all: try (intros P; destruct (decide (P = path)) as [->|Hne];
              [by rewrite !lookup_insert_eq|by rewrite !lookup_insert_ne; auto]).
    all: intros P o; destruct (decide (P = path)) as [->|Hne];
           [rewrite lookup_insert_eq|rewrite lookup_insert_ne by done; by auto].
    + intros [= <-] _. cbn. by apply Hq.
    + by intros [= <-].
  - by intros [Hcov Hchk].
Qed.

Lemma provenance_ok_run (ops : list (op W)) (cfg : config) :
  provenance_ok cfg → provenance_ok (run fn ops cfg).
Proof.
  revert cfg. induction ops as [|o ops IH]; intros cfg Hok; [done|].
  cbn. apply IH. by apply provenance_ok_step.
Qed.

Lemma provenance_ok_initial (w : W) : provenance_ok (initial w).
Proof.
  split; cbn.
  - intros P. rewrite lookup_empty. by intros [? ?].
  - intros P o. by rewrite lookup_empty.
Qed.

Lemma provenance_ok_never_stale (cfg : config) :
  provenance_ok cfg → never_stale_when_checked cfg.
Proof.
  intros [Hcov Hchk] P M T HM.
  destruct (cache cfg.1 !! P) as [v|] eqn:Hc; [right|by left].
  destruct (Hcov P) as [o Ho]; [by rewrite Hc|].
  exists o. split; [done|].
  destruct (checked o) eqn:Hck; [left|by right].
  destruct (Hchk P o Ho Hck) as (M' & T' & HM' & Hd). congruence.
Qed.

(** C2, amended.  Starting from empty stores, after any sequence of calls
    of [getMtime] and of the wrapped function (through wrappers of any
    intervals that share the stores) and of changes of the outside world:
    if the Modification Cache holds [(M, T)] for a path, then the Result
    Cache has no entry for it, or its entry was produced by a call of
    [fn] made while the on-disk modification value was [M], or it was
    produced by a wrapped call whose [getMtime] obtained no modification
    value from the filesystem (it was rate-limited, or its query
    failed). *)
Theorem gated_invariant (ops : list (op W)) (w : W) :
  never_stale_when_checked (run fn ops (initial w)).
Proof.
  apply provenance_ok_never_stale, provenance_ok_run, provenance_ok_initial.
Qed.

(** The ghost state is only a record: the heap of an instrumented step is
    the heap the code produces. *)
Lemma step_erasure (o : op W) (cfg : config) :
  (step fn o cfg).1 =
    match o with
    | GetMtime s path => final (getMtime s path cfg.1)
    | Call s path => final (cachedMtime fn s path cfg.1)
    | Outside w => mkHeap (cache cfg.1) (mtimeCache cfg.1) w
    end.
Proof.
  destruct o as [s path|s path|w]; cbn; [done| |done].
  by rewrite cachedMtime_seq.
Qed.

End MapFacts.

(** ** The claims at concrete inputs *)

(** C3 at a file whose modification time moved from 1000 to 1005, queried
    after the window of 10 has passed. *)
Lemma getMtime_query_succeeds_witness :
  let h := mkHeap ({[ "f" := VString "contents" ]} : gmap string value)
                  ({[ "f" := (1000, 100) ]} : gmap string (Z * Z))
                  (mkWorld 200 {[ "f" := (1005, "new contents"%string) ]}) in
  let r := getMtime 10 "f" h in
  outcome r = Normal (Some 1005) ∧
  mtimeCache (final r) = <[ "f" := (1005, 200) ]> (mtimeCache h) ∧
  (1005 ≠ 1000 → cache (final r) = delete "f" (cache h)) ∧
  (1005 = 1000 → cache (final r) = cache h).
Proof.
  exact (getMtime_query_succeeds 10 "f"
           (mkHeap {[ "f" := VString "contents" ]} {[ "f" := (1000, 100) ]}
                   (mkWorld 200 {[ "f" := (1005, "new contents"%string) ]}))
           {| mtime := 1005 |} eq_refl eq_refl).
Defined.

(** C4 at a file that was deleted, queried after the window has passed. *)
Lemma getMtime_query_fails_witness :
  getMtime 10 "f"
    (mkHeap ({[ "f" := VString "contents" ]} : gmap string value)
            ({[ "f" := (1000, 100) ]} : gmap string (Z * Z))
            (mkWorld 200 ∅))
  = (Normal None, mkHeap ∅ ∅ (mkWorld 200 ∅), [Stat "f"]).
Proof.
  exact (getMtime_query_fails 10 "f"
           (mkHeap {[ "f" := VString "contents" ]} {[ "f" := (1000, 100) ]}
                   (mkWorld 200 ∅))
           ENOENT eq_refl eq_refl).
Defined.

(** C6 at an entry checked at time 100 and read again at time 103, and at
    two calls at times 100 and 103 for a file that exists. *)
Lemma getMtime_rate_limited_witness :
  getMtime 10 "f"
    (mkHeap (∅ : gmap string value) ({[ "f" := (1000, 100) ]} : gmap string (Z * Z))
            (mkWorld 103 {[ "f" := (1005, "new contents"%string) ]}))
  = (Normal (Some 1000),
     mkHeap ∅ {[ "f" := (1000, 100) ]} (mkWorld 103 {[ "f" := (1005, "new contents"%string) ]}),
     []) ∧
  one_query_per_window 10 "f"
    (mkHeap (∅ : gmap string value) (∅ : gmap string (Z * Z))
            (mkWorld 100 {[ "f" := (1000, "contents"%string) ]}))
    (mkWorld 103 {[ "f" := (1005, "new contents"%string) ]}).
Proof.
  split.
  - apply (proj1 (getMtime_rate_limited 10 "f" _) 1000 100); [reflexivity|].
    vm_compute. discriminate.
  - apply (proj2 (getMtime_rate_limited 10 "f" _)). vm_compute. discriminate.
Defined.

(** C6 as stated fails at a path that does not exist: the failed query
    leaves no entry, so the next call, one tick later, queries again. *)
Lemma two_queries_within_window :
  ¬ one_query_per_window 10 "f"
      (mkHeap (∅ : gmap string value) (∅ : gmap string (Z * Z)) (mkWorld 1 ∅))
      (mkWorld 2 ∅).
Proof.
  unfold one_query_per_window. intros Hclaim.
  assert (length [Stat "f"; Stat "f"] ≤ 1)%nat as Hlen.
  { apply Hclaim. vm_compute. discriminate. }
  cbn in Hlen. lia.
Qed.

(** C10 at a result pre-seeded for a file of modification time 1000. *)
Lemma preseeded_result_witness :
  cache (final (getMtime 10 "f"
                  (mkHeap ({[ "f" := VString "seeded" ]} : gmap string value)
                          (∅ : gmap string (Z * Z))
                          (mkWorld 1 {[ "f" := (1000, "contents"%string) ]}))))
    !! "f" = None.
Proof.
  refine (proj1 (preseeded_result 10 "f" _ _) _ 1000 _ _);
    [reflexivity|reflexivity|reflexivity|lia].
Defined.

(** C2 as stated fails after a rate-limited miss: [getMtime] records the
    modification value 1000 at time 100; the file changes; the wrapped
    call at time 103 is inside the window, makes no query, and stores a
    result computed while the modification value was 1005. *)
Lemma stale_after_rate_limited_miss :
  ¬ never_stale
      (run readFileSync
         [GetMtime 10 "f";
          Outside (mkWorld 103 {[ "f" := (1005, "new contents"%string) ]});
          Call 10 "f"]
         (initial (mkWorld 100 {[ "f" := (1000, "contents"%string) ]}))).
Proof.
  intros Hinv.
  destruct (Hinv "f" 1000 100 eq_refl) as [Hc|(o & Ho & Hd)].
  - vm_compute in Hc. discriminate.
  - vm_compute in Ho. injection Ho as <-. discriminate.
Qed.

(** The scenario of the test suite: two wrappers of intervals -100 and 10
    over [readFileSync] share their stores. *)
Example shared_stores_scenario :
  let t0 := mkWorld 100 {[ "f" := (1000, "contents"%string) ]} in
  let t1 := mkWorld 103 {[ "f" := (1005, "new contents"%string) ]} in
  let h0 := mkHeap (∅ : gmap string value) (∅ : gmap string (Z * Z)) t0 in
  let r1 := cachedMtime readFileSync (-100) "f" h0 in
  let r2 := cachedMtime readFileSync 10 "f" (final r1) in
  let h2 := mkHeap (cache (final r2)) (mtimeCache (final r2)) t1 in
  let r3 := cachedMtime readFileSync 10 "f" h2 in
  let r4 := cachedMtime readFileSync (-100) "f" (final r3) in
  let r5 := cachedMtime readFileSync 10 "f" (final r4) in
  let h5 := mkHeap (cache (final r5)) (mtimeCache (final r5)) (mkWorld 104 ∅) in
  let r6 := cachedMtime readFileSync 10 "f" h5 in
  let r7 := cachedMtime readFileSync (-100) "f" (final r6) in
  let r8 := cachedMtime readFileSync 10 "f" (final r7) in
  outcome r1 = Normal (VString "contents") ∧
  outcome r2 = Normal (VString "contents") ∧
  outcome r3 = Normal (VString "contents") ∧
  outcome r4 = Normal (VString "new contents") ∧
  outcome r5 = Normal (VString "new contents") ∧
  outcome r6 = Normal (VString "new contents") ∧
  outcome r7 = Throw ENOENT ∧
  outcome r8 = Throw ENOENT.
Proof. vm_compute. repeat split. Qed.

(** * Further properties of the code *)

(** ** [cached] on any lawful store *)

Section MemoizerLawful.
Context {A C W : Type} `{!MapLike A value C} `{!LawfulSet A value C}.
Variable fn : A → W → completion value * W.

(** An entry set by the caller before the call is served as it is: [fn]
    is not invoked and the store is not written. *)
Theorem cached_preseeded (arg : A) (v : value) (c : C) (w : W) :
  cached fn arg (ml_set arg v c, w) = (Normal v, (ml_set arg v c, w), []).
Proof. by rewrite cached_run, has_set, get_set. Qed.

End MemoizerLawful.

Lemma cached_preseeded_witness :
  cached (W := unit) failing 5 (<[ 5 := VNumber 500 ]> (∅ : gmap Z value), tt)
  = (Normal (VNumber 500), (<[ 5 := VNumber 500 ]> ∅, tt), []).
Proof. exact (cached_preseeded (C := gmap Z value) failing 5 (VNumber 500) ∅ tt). Defined.

(** ** [cached] on [Map] *)

Section MemoizerMap.
Context {A : Type} `{Countable A} {W : Type}.
Variable fn : A → W → completion value * W.

(** The store after a call: the one before, with the fresh result added
    when [fn] returned on a miss. *)
Lemma cached_final_store (arg : A) (c : gmap A value) (w : W) :
  (final (cached fn arg (c, w))).1 =
    match c !! arg, (fn arg w).1 with
    | None, Normal r => <[arg := r]> c
    | _, _ => c
    end.
Proof.
  rewrite cached_run. cbn.
  destruct (c !! arg) as [v|] eqn:Hc; cbn; [done|].
  by destruct (fn arg w) as [[r|e] w'].
Qed.

Lemma cached_store_grows (arg : A) (c : gmap A value) (w : W) :
  c ⊆ (final (cached fn arg (c, w))).1.
Proof.
  rewrite cached_final_store.
  destruct (c !! arg) as [v|] eqn:Hc; [done|].
  destruct (fn arg w).1; [|done]. by apply insert_subseteq.
Qed.

(** Whatever the wrapper returns is what the store holds under the
    argument afterwards. *)
Theorem cached_result_stored (arg : A) (c : gmap A value) (w : W) (v : value) :
  outcome (cached fn arg (c, w)) = Normal v →
  (final (cached fn arg (c, w))).1 !! arg = Some v.
Proof.
  rewrite cached_run. cbn.
  destruct (c !! arg) as [v0|] eqn:Hc; cbn.
  - by intros [= <-].
  - destruct (fn arg w) as [[r|e] w']; cbn; [|done].
    intros [= <-]. apply lookup_insert_eq.
Qed.

(** In a series of calls, [fn] is invoked only for arguments of the
    series that the store did not hold at the start. *)
Lemma call_each_events (args : list A) (c : gmap A value) (w : W) :
  ∀ a, a ∈ (call_each fn args (c, w)).2 → a ∈ args ∧ c !! a = None.
Proof.
  revert c w. induction args as [|x args IH]; intros c w a; cbn.
  - by intros ?%elem_of_nil.
  - rewrite elem_of_app. intros [Hin|Hin].
    + revert Hin. rewrite cached_run. cbn.
      destruct (c !! x) as [v|] eqn:Hc; cbn; [by intros ?%elem_of_nil|].
      destruct (fn x w) as [[r|e] w']; cbn; intros ->%list_elem_of_singleton;
        (split; [by left|done]).
    + destruct (cached fn x (c, w)) as [[o [c1 w1]] ev] eqn:Hrun.
      apply IH in Hin as [Hin Hnone]. split; [by right|].
      pose proof (cached_store_grows x c w) as Hsub.
      rewrite Hrun in Hsub. cbn in Hsub.
      destruct (c !! a) as [v|] eqn:Hca; [|done].
      eapply lookup_weaken in Hca; [|done]. cbn in Hnone. congruence.
Qed.

(** Over any series of calls, a function that never throws is invoked at
    most once per argument, and never for an argument that the store held
    at the start; every call returns. *)
Theorem call_each_at_most_once (args : list A) (c : gmap A value) (w : W) :
  (∀ a w0, ∃ v w1, fn a w0 = (Normal v, w1)) →
  NoDup (call_each fn args (c, w)).2 ∧
  (∀ a, a ∈ (call_each fn args (c, w)).2 → a ∈ args ∧ c !! a = None) ∧
  Forall (λ o, ∃ v, o = Normal v) (call_each fn args (c, w)).1.1.
Proof.
  intros Hfn. split; [|split; [apply call_each_events|]].
  - revert c w. induction args as [|x args IH]; intros c w; cbn; [constructor|].
    rewrite cached_run. cbn.
    destruct (c !! x) as [v|] eqn:Hc; cbn; [apply IH|].
    destruct (Hfn x w) as (v & w1 & ->). cbn. constructor; [|apply IH].
    intros [_ Hnone]%call_each_events. by rewrite lookup_insert_eq in Hnone.
  - revert c w. induction args as [|x args IH]; intros c w; cbn; [constructor|].
    constructor; [|destruct (cached fn x (c, w)) as [[o [c1 w1]] ev]; apply IH].
    rewrite cached_run. cbn. destruct (c !! x); cbn; [by eexists|].
    destruct (Hfn x w) as (v & w1 & ->). by eexists.
Qed.

End MemoizerMap.

Section MemoizerPure.
Context {A : Type} `{Countable A} {W : Type}.
Variable f : A → value.

(** Memoizing a pure function is transparent: from a store whose entries
    are values of [f] (an empty one, for instance), every call of a
    series returns [f] of its argument, and the store still holds only
    values of [f]. *)
Theorem call_each_pure (args : list A) (c : gmap A value) (w : W) :
  (∀ k v, c !! k = Some v → v = f k) →
  (call_each (pure_fn f) args (c, w)).1.1 = (λ a, Normal (f a)) <$> args ∧
  (∀ k v, (call_each (pure_fn f) args (c, w)).1.2.1 !! k = Some v → v = f k).
Proof.
  revert c. induction args as [|x args IH]; intros c Hc; cbn; [done|].
  rewrite cached_run. cbn.
  destruct (c !! x) as [v|] eqn:Hx; cbn.
  - destruct (IH c Hc) as [-> Hfin]. by rewrite (Hc x v Hx).
  - destruct (IH (<[x := f x]> c)) as [-> Hfin]; [|done].
    intros k v. destruct (decide (k = x)) as [->|Hne].
    + rewrite lookup_insert_eq. by intros [= <-].
    + rewrite lookup_insert_ne by done. apply Hc.
Qed.

End MemoizerPure.

Lemma call_each_at_most_once_witness :
  NoDup (call_each (W := unit) square [2; 3; 2; 2; 3] (∅ : gmap Z value, tt)).2.
Proof.
  apply (call_each_at_most_once (W := unit) square [2; 3; 2; 2; 3] ∅ tt).
  intros a w0. by eexists _, _.
Defined.

Lemma call_each_pure_witness :
  (call_each (W := unit) (pure_fn (λ a, VNumber (a * a))) [2; 3; 2] (∅ : gmap Z value, tt)).1.1
  = [Normal (VNumber 4); Normal (VNumber 9); Normal (VNumber 4)].
Proof.
  apply (call_each_pure (W := unit) (λ a, VNumber (a * a)) [2; 3; 2] ∅ tt).
  intros k v. by rewrite lookup_empty.
Defined.

Lemma cached_result_stored_witness :
  (final (cached (W := unit) square 2 (∅ : gmap Z value, tt))).1 !! 2 = Some (VNumber 4).
Proof. apply (cached_result_stored (W := unit) square 2 ∅ tt). reflexivity. Defined.

(** ** The gated wrapper on the default stores *)

Section GatedMap.
Context {W : Type} `{!Platform W}.
Variable fn : string → W → completion value * W.
Variable statFreqMs : Z.

Abbreviation heap := (Heap (gmap string value) (gmap string (Z * Z)) W).

(** The heap that [getMtime] leaves. *)
Lemma getMtime_final (path : string) (h : heap) :
  final (getMtime statFreqMs path h) =
    let now := performance_now (env h) in
    let cm := default (0, -1 * statFreqMs) (mtimeCache h !! path) in
    if statFreqMs <? now - cm.2 then
      match statSync path (env h) with
      | Normal st =>
          mkHeap (if negb (mtime st =? cm.1) then delete path (cache h) else cache h)
                 (<[path := (mtime st, now)]> (mtimeCache h)) (env h)
      | Throw _ => mkHeap (delete path (cache h)) (delete path (mtimeCache h)) (env h)
      end
    else h.
Proof.
  rewrite getMtime_run. unfold lookup_cm. cbn.
  destruct (statFreqMs <? _); [|done].
  destruct (statSync path (env h)) as [st|e]; [|done].
  by destruct (negb _).
Qed.

(** [getMtime] concerns its own path only: it leaves the outside world as
    it is, makes no call other than at most one query of that path, and
    leaves the entries of every other path in both stores untouched. *)
Theorem getMtime_frame (path : string) (h : heap) :
  env (final (getMtime statFreqMs path h)) = env h ∧
  (events (getMtime statFreqMs path h) = [] ∨
   events (getMtime statFreqMs path h) = [Stat path]) ∧
  ∀ P, P ≠ path →
    cache (final (getMtime statFreqMs path h)) !! P = cache h !! P ∧
    mtimeCache (final (getMtime statFreqMs path h)) !! P = mtimeCache h !! P.
Proof.
  split; [apply getMtime_env|]. split.
  - rewrite getMtime_events. destruct (statFreqMs <? _); [by right|by left].
  - intros P HP. rewrite getMtime_final. cbn zeta.
    destruct (statFreqMs <? _); [|done].
    destruct (statSync path (env h)) as [st|e]; cbn.
    + rewrite lookup_insert_ne by done. split; [|done].
      destruct (negb _); [|done]. by rewrite lookup_delete_ne.
    + by rewrite !lookup_delete_ne.
Qed.



(** Inside the window a cached result is served whatever the file has
    become: no query, no invocation, nothing written. *)
Theorem cachedMtime_within_window (path : string) (h : heap) (M T : Z) (v : value) :
  mtimeCache h !! path = Some (M, T) →
  performance_now (env h) - T ≤ statFreqMs →
  cache h !! path = Some v →
  cachedMtime fn statFreqMs path h = (Normal v, h, []).
Proof.
  intros Hget Hin Hc.
  rewrite cachedMtime_seq. cbn zeta. rewrite cfn_run, getMtime_final, getMtime_run.
  unfold lookup_cm. cbn. rewrite Hget. cbn.
  destruct (Z.ltb_spec statFreqMs (performance_now (env h) - T)); [lia|]. cbn.
  rewrite Hc. by destruct h.
Qed.

(** When the query fails, the wrapped call does not stop there: [fn] is
    invoked on the path all the same, after both entries were dropped,
    and the call ends as [fn] ends.  If [fn] throws, the same value is
    thrown and neither store holds the path. *)
Theorem cachedMtime_query_failed (path : string) (h : heap) (e : value) :
  events (getMtime statFreqMs path h) = [Stat path] →
  statSync path (env h) = Throw e →
  outcome (cachedMtime fn statFreqMs path h) = (fn path (env h)).1 ∧
  events (cachedMtime fn statFreqMs path h) = [Stat path; Invoke path] ∧
  mtimeCache (final (cachedMtime fn statFreqMs path h)) !! path = None ∧
  (∀ e', (fn path (env h)).1 = Throw e' →
         cache (final (cachedMtime fn statFreqMs path h)) !! path = None).
Proof.
  intros Hev Hst. revert Hev.
  rewrite cachedMtime_seq. cbn zeta. rewrite cfn_run, getMtime_final, getMtime_run.
  cbn zeta. destruct (statFreqMs <? _); [|done]. rewrite Hst. cbn. intros _.
  rewrite lookup_delete_eq.
  destruct (fn path (env h)) as [[r|e'] w']; cbn;
    rewrite lookup_delete_eq; repeat split; try done.
  intros ? _. apply lookup_delete_eq.
Qed.

(** Whatever the wrapped call returns is what the Result Cache holds for
    the path afterwards. *)
Theorem cachedMtime_result_stored (path : string) (h : heap) (v : value) :
  outcome (cachedMtime fn statFreqMs path h) = Normal v →
  cache (final (cachedMtime fn statFreqMs path h)) !! path = Some v.
Proof.
  rewrite cachedMtime_seq. cbn zeta. rewrite cfn_run.
  destruct (cache (final (getMtime statFreqMs path h)) !! path) as [v0|] eqn:Hc; cbn.
  - by intros [= <-].
  - destruct (fn path _) as [[r|e] w']; cbn; [|done].
    intros [= <-]. apply lookup_insert_eq.
Qed.

End GatedMap.

(** ** Wrappers that share their stores *)

Section SharedStores.
Context {W : Type} `{!Platform W}.
Variables fnA fnB : string → W → completion value * W.
Variables statFreqA statFreqB : Z.

(** What one wrapper learns serves the other: after a call through the
    first wrapper has queried the filesystem with success and returned
    [v], a call through a second wrapper on the same stores, made within
    the second wrapper's interval of that query, returns [v] with no
    query and no invocation, whatever the world has become. *)
Theorem shared_stores_serve (path : string)
    (h : Heap (gmap string value) (gmap string (Z * Z)) W)
    (st : Stats) (v : value) (w2 : W) :
  events (getMtime statFreqA path h) = [Stat path] →
  statSync path (env h) = Normal st →
  outcome (cachedMtime fnA statFreqA path h) = Normal v →
  performance_now w2 - performance_now (env h) ≤ statFreqB →
  let hA := final (cachedMtime fnA statFreqA path h) in
  cachedMtime fnB statFreqB path (mkHeap (cache hA) (mtimeCache hA) w2)
    = (Normal v, mkHeap (cache hA) (mtimeCache hA) w2, []).
Proof.
  intros Hev Hst Hout Hin. cbn zeta.
  assert (mtimeCache (final (cachedMtime fnA statFreqA path h)) !! path
          = Some (mtime st, performance_now (env h))) as Hm.
  { assert (mtimeCache (final (getMtime statFreqA path h)) !! path
            = Some (mtime st, performance_now (env h))) as Hg.
    { revert Hev. rewrite getMtime_final, getMtime_events. unfold lookup_cm. cbn.
      destruct (statFreqA <? _); [|done]. rewrite Hst. cbn. intros _.
      apply lookup_insert_eq. }
    rewrite cachedMtime_seq. cbn zeta. rewrite cfn_run.
    destruct (cache (final (getMtime statFreqA path h)) !! path); cbn; [done|].
    by destruct (fnA path _) as [[r|e] w']. }
  assert (cache (final (cachedMtime fnA statFreqA path h)) !! path = Some v) as Hc.
  { revert Hout. rewrite cachedMtime_seq. cbn zeta. rewrite cfn_run.
    destruct (cache (final (getMtime statFreqA path h)) !! path) as [v0|] eqn:Hc; cbn.
    - by intros [= <-].
    - destruct (fnA path _) as [[r|e] w']; cbn; [|done].
      intros [= <-]. apply lookup_insert_eq. }
  rewrite cachedMtime_seq. cbn zeta. rewrite cfn_run, getMtime_final, getMtime_run.
  unfold lookup_cm. cbn. rewrite Hm. cbn.
  destruct (Z.ltb_spec statFreqB (performance_now w2 - performance_now (env h))); [lia|].
  cbn. by rewrite Hc.
Qed.

End SharedStores.

(** ** The further properties at concrete inputs *)

Lemma getMtime_frame_witness :
  cache (final (getMtime 10 "f"
                  (mkHeap ({[ "g" := VString "other" ]} : gmap string value)
                          (∅ : gmap string (Z * Z))
                          (mkWorld 1 {[ "f" := (1000, "contents"%string) ]}))))
    !! "g" = Some (VString "other").
Proof.
  pose proof (getMtime_frame 10 "f"
                (mkHeap {[ "g" := VString "other" ]} ∅
                        (mkWorld 1 {[ "f" := (1000, "contents"%string) ]})))
    as (_ & _ & Hframe).
  destruct (Hframe "g") as [Hc _]; [discriminate|]. rewrite Hc. reflexivity.
Defined.



Lemma cachedMtime_within_window_witness :
  cachedMtime readFileSync 10 "f"
    (mkHeap ({[ "f" := VString "contents" ]} : gmap string value)
            ({[ "f" := (1000, 100) ]} : gmap string (Z * Z))
            (mkWorld 103 {[ "f" := (1005, "new contents"%string) ]}))
  = (Normal (VString "contents"),
     mkHeap {[ "f" := VString "contents" ]} {[ "f" := (1000, 100) ]}
            (mkWorld 103 {[ "f" := (1005, "new contents"%string) ]}),
     []).
Proof.
  exact (cachedMtime_within_window readFileSync 10 "f"
           (mkHeap {[ "f" := VString "contents" ]} {[ "f" := (1000, 100) ]}
                   (mkWorld 103 {[ "f" := (1005, "new contents"%string) ]}))
           1000 100 (VString "contents")
           eq_refl ltac:(cbn; lia) eq_refl).
Defined.

Lemma cachedMtime_query_failed_witness :
  outcome (cachedMtime readFileSync 10 "f"
             (mkHeap ({[ "f" := VString "contents" ]} : gmap string value)
                     ({[ "f" := (1000, 100) ]} : gmap string (Z * Z))
                     (mkWorld 200 ∅)))
  = Throw ENOENT.
Proof.
  exact (proj1 (cachedMtime_query_failed readFileSync 10 "f"
                  (mkHeap {[ "f" := VString "contents" ]} {[ "f" := (1000, 100) ]}
                          (mkWorld 200 ∅))
                  ENOENT eq_refl eq_refl)).
Defined.

Lemma cachedMtime_result_stored_witness :
  cache (final (cachedMtime readFileSync 10 "f"
                  (mkHeap (∅ : gmap string value) (∅ : gmap string (Z * Z))
                          (mkWorld 1 {[ "f" := (1000, "contents"%string) ]}))))
    !! "f" = Some (VString "contents").
Proof. apply (cachedMtime_result_stored readFileSync 10 "f"). reflexivity. Defined.

(** The two wrappers of the test suite: the one of interval -100 detects
    the change at time 103; the one of interval 10 then serves the new
    contents at time 104 although its own window has not passed. *)
Lemma shared_stores_serve_witness :
  cachedMtime readFileSync 10 "f"
    (mkHeap (<[ "f" := VString "new contents" ]> ({[ "f" := VString "contents" ]} : gmap string value))
            (<[ "f" := (1005, 103) ]> ({[ "f" := (1000, 100) ]} : gmap string (Z * Z)))
            (mkWorld 104 {[ "f" := (1005, "new contents"%string) ]}))
  = (Normal (VString "new contents"),
     mkHeap (<[ "f" := VString "new contents" ]> {[ "f" := VString "contents" ]})
            (<[ "f" := (1005, 103) ]> {[ "f" := (1000, 100) ]})
            (mkWorld 104 {[ "f" := (1005, "new contents"%string) ]}),
     []).
Proof.
  exact (shared_stores_serve readFileSync readFileSync (-100) 10 "f"
           (mkHeap {[ "f" := VString "contents" ]} {[ "f" := (1000, 100) ]}
                   (mkWorld 103 {[ "f" := (1005, "new contents"%string) ]}))
           {| mtime := 1005 |} (VString "new contents")
           (mkWorld 104 {[ "f" := (1005, "new contents"%string) ]})
           eq_refl eq_refl eq_refl ltac:(cbn; lia)).
Defined.

(** * Double precision *)

Lemma round53_exact (z : Z) : Z.abs z ≤ 2 ^ 53 → round53 z = z.
Proof.
  intros Hz. unfold round53. cbv zeta.
  destruct (Z.ltb_spec (Z.abs z) (2 ^ 53)) as [|Hge]; [done|].
  assert (z = 2 ^ 53 ∨ z = - 2 ^ 53) as [->| ->] by lia; by vm_compute.
Qed.

Lemma round53_nonneg (z : Z) : 0 ≤ z → 0 ≤ round53 z.
Proof.
  intros Hz. unfold round53. cbv zeta.
  destruct (Z.abs z <? 2 ^ 53); [done|].
  apply Z.mul_nonneg_nonneg; [by apply Z.sgn_nonneg|].
  assert (0 ≤ Z.abs z / 2 ^ (Z.log2 (Z.abs z) - 52)) as Hq.
  { apply Z_div_nonneg_nonneg; [lia|]. apply Z.pow_nonneg. lia. }
  apply Z.mul_nonneg_nonneg; [|apply Z.pow_nonneg; lia].
  repeat case_match; lia.
Qed.

Section Gated64Facts.
Context {C MC W : Type}.
Context `{!MapLike string value C} `{!MapLike string (Z * Z) MC} `{!Platform W}.
Variable statFreqMs : Z.

(** [getMtime64], case by case. *)
Lemma getMtime64_run (path : string) (h : Heap C MC W) :
  getMtime64 statFreqMs path h =
    let now := performance_now (env h) in
    let cm := lookup_cm statFreqMs path h in
    if statFreqMs <? number_sub now cm.2 then
      match statSync path (env h) with
      | Normal st =>
          (Normal (Some (mtime st)),
           mtimeCache_set path (mtime st, now)
             (if negb (mtime st =? cm.1) then cache_delete path h else h),
           [Stat path])
      | Throw _ =>
          (Normal None, cache_delete path (mtimeCache_delete path h), [Stat path])
      end
    else (Normal (Some cm.1), h, []).
Proof.
  unfold getMtime64, mbind, Eff_bind, eff_bind, gets, modify, mret, Eff_ret, eff_ret,
    catcher, stat_mtime.
  cbn. destruct (statFreqMs <? _); [|done].
  destruct (statSync path (env h)) as [st|e]; [|done].
  by destruct (negb _).
Qed.

(** Where the difference of the guard is exact, rounding changes
    nothing: [getMtime64] is [getMtime]. *)
Lemma getMtime64_exact (path : string) (h : Heap C MC W) :
  Z.abs (performance_now (env h) - (lookup_cm statFreqMs path h).2) ≤ 2 ^ 53 →
  getMtime64 statFreqMs path h = getMtime statFreqMs path h.
Proof.
  intros Hexact. rewrite getMtime64_run, getMtime_run. cbv zeta.
  unfold number_sub. by rewrite round53_exact.
Qed.

(** A negative interval switches the rate limit off, as long as it is no
    less than [-2^53]: at a positive clock reading, and with the entry of
    the path (if any) stamped no later than now, every call queries the
    filesystem. *)
Theorem getMtime64_negative_interval (path : string) (h : Heap C MC W) :
  - 2 ^ 53 ≤ statFreqMs →
  statFreqMs < 0 →
  0 < performance_now (env h) →
  (∀ M T, ml_get path (mtimeCache h) = Some (M, T) → T ≤ performance_now (env h)) →
  events (getMtime64 statFreqMs path h) = [Stat path].
Proof.
  intros Hrange Hneg Hnow Hpast.
  assert (statFreqMs
          < number_sub (performance_now (env h)) (lookup_cm statFreqMs path h).2) as Hguard.
  { unfold lookup_cm, number_sub.
    destruct (ml_get path (mtimeCache h)) as [[M T]|] eqn:Hget; cbn.
    - specialize (Hpast M T eq_refl).
      pose proof (round53_nonneg (performance_now (env h) - T)). lia.
    - destruct (Z.le_gt_cases 0 (performance_now (env h) - -1 * statFreqMs)) as [Hpos|Hn].
      + pose proof (round53_nonneg _ Hpos). lia.
      + rewrite round53_exact; lia. }
  rewrite getMtime64_run. cbv zeta.
  destruct (Z.ltb_spec statFreqMs
              (number_sub (performance_now (env h)) (lookup_cm statFreqMs path h).2));
    [|lia].
  by destruct (statSync path (env h)).
Qed.

End Gated64Facts.

Section Gated64Map.
Context {W : Type} `{!Platform W}.
Variable statFreqMs : Z.

Abbreviation heap := (Heap (gmap string value) (gmap string (Z * Z)) W).

(** The first call for a path, where [now + statFreqMs] is exact
    (at most [2^53] in magnitude): with no Modification Cache entry the
    sentinel pair is [(0, -statFreqMs)]; at every positive clock reading
    the call queries the filesystem, for positive, zero and negative
    [statFreqMs] alike, and runs exactly as if that pair were cached; at
    a clock reading of zero or less it makes no query and returns the
    sentinel value [0]. *)
Theorem getMtime64_first_call (path : string) (h : heap) :
  mtimeCache h !! path = None →
  Z.abs (performance_now (env h) + statFreqMs) ≤ 2 ^ 53 →
  lookup_cm statFreqMs path h = (0, - statFreqMs) ∧
  (0 < performance_now (env h) →
   events (getMtime64 statFreqMs path h) = [Stat path] ∧
   getMtime64 statFreqMs path h
     = getMtime64 statFreqMs path (mtimeCache_set path (0, - statFreqMs) h)) ∧
  (performance_now (env h) ≤ 0 →
   getMtime64 statFreqMs path h = (Normal (Some 0), h, [])).
Proof.
  intros Hnone Hexact.
  assert (lookup_cm statFreqMs path h = (0, - statFreqMs)) as Hcm.
  { unfold lookup_cm. cbn. rewrite Hnone. cbn. f_equal; lia. }
  assert (lookup_cm statFreqMs path (mtimeCache_set path (0, - statFreqMs) h)
          = (0, - statFreqMs)) as Hcm'.
  { unfold lookup_cm. cbn. by rewrite lookup_insert_eq. }
  assert (number_sub (performance_now (env h)) (- statFreqMs)
          = performance_now (env h) + statFreqMs) as Hsub.
  { unfold number_sub. rewrite round53_exact; lia. }
  split; [done|]. rewrite !getMtime64_run. cbv zeta. rewrite Hcm, Hcm'. cbn.
  rewrite Hsub. split.
  - intros Hnow.
    destruct (Z.ltb_spec statFreqMs (performance_now (env h) + statFreqMs)); [|lia].
    destruct (statSync path (env h)) as [st|e]; cbn.
    + split; [done|]. unfold mtimeCache_set. cbn.
      destruct (negb _); cbn; by rewrite insert_insert_eq.
    + split; [done|]. unfold cache_delete, mtimeCache_delete. cbn.
      by rewrite delete_insert_eq.
  - intros Hnow.
    by destruct (Z.ltb_spec statFreqMs (performance_now (env h) + statFreqMs)); [lia|].
Qed.

(** What [getMtime] answers is what the Modification Cache holds
    afterwards, at any positive clock reading where [now + statFreqMs]
    is exact: a number is the modification value of the path's entry;
    [undefined] means that neither store has an entry for the path. *)
Theorem getMtime64_answer (path : string) (h : heap) :
  0 < performance_now (env h) →
  Z.abs (performance_now (env h) + statFreqMs) ≤ 2 ^ 53 →
  (∀ m, outcome (getMtime64 statFreqMs path h) = Normal (Some m) →
        ∃ T, mtimeCache (final (getMtime64 statFreqMs path h)) !! path = Some (m, T)) ∧
  (outcome (getMtime64 statFreqMs path h) = Normal None →
        mtimeCache (final (getMtime64 statFreqMs path h)) !! path = None ∧
        cache (final (getMtime64 statFreqMs path h)) !! path = None).
Proof.
  intros Hnow Hexact. rewrite getMtime64_run. unfold lookup_cm. cbn.
  destruct (mtimeCache h !! path) as [[M T]|] eqn:Hget; cbn.
  - destruct (statFreqMs <? _); cbn.
    + destruct (statSync path (env h)) as [st|e]; cbn.
      * split; [|done]. intros m [= <-]. destruct (negb _); cbn; eexists;
          apply lookup_insert_eq.
      * split; [done|]. intros _. by rewrite !lookup_delete_eq.
    + split; [|done]. intros m [= <-]. by exists T.
  - assert (number_sub (performance_now (env h)) (-1 * statFreqMs)
            = performance_now (env h) + statFreqMs) as ->.
    { unfold number_sub. rewrite round53_exact; lia. }
    destruct (Z.ltb_spec statFreqMs (performance_now (env h) + statFreqMs)); [|lia].
    cbn. destruct (statSync path (env h)) as [st|e]; cbn.
    + split; [|done]. intros m [= <-]. destruct (negb _); cbn; eexists;
        apply lookup_insert_eq.
    + split; [done|]. intros _. by rewrite !lookup_delete_eq.
Qed.

End Gated64Map.

(** C7.  With [statFreqMs = 1e20], or [-1e20], and a clock reading of
    100, the first [getMtime] for a path that exists on disk and that the
    Modification Cache does not hold makes no filesystem query: the
    sentinel time is absorbed by rounding ([100 + 1e20] is [1e20] in
    double precision), the guard [now - cm[1] > statFreqMs] is false, and
    the sentinel value [0] is returned, the stores being left empty. *)
Theorem sentinel_absorbed_by_rounding :
  let h := mkHeap (∅ : gmap string value) (∅ : gmap string (Z * Z))
                  (mkWorld 100 {[ "f" := (1000, "contents"%string) ]}) in
  getMtime64 (10 ^ 20) "f" h = (Normal (Some 0), h, []) ∧
  getMtime64 (- 10 ^ 20) "f" h = (Normal (Some 0), h, []).
Proof. by vm_compute. Qed.

(** The guard at the readings [(1e20, 100)], [(-1e20, 100)], [(2^53, 1)]
    and, for comparison, [(10, 100)]. *)
Example guard_in_double_precision :
  (10 ^ 20 <? number_sub 100 (-1 * 10 ^ 20)) = false ∧
  (- 10 ^ 20 <? number_sub 100 (-1 * - 10 ^ 20)) = false ∧
  (2 ^ 53 <? number_sub 1 (-1 * 2 ^ 53)) = false ∧
  (10 <? number_sub 100 (-1 * 10)) = true.
Proof. by vm_compute. Qed.

Lemma getMtime64_negative_interval_witness :
  events (getMtime64 (-100) "f"
            (mkHeap (∅ : gmap string value) ({[ "f" := (1000, 100) ]} : gmap string (Z * Z))
                    (mkWorld 100 {[ "f" := (1000, "contents"%string) ]})))
  = [Stat "f"].
Proof.
  apply (getMtime64_negative_interval (-100) "f"); [lia|lia|cbn; lia|].
  intros M T HMT. vm_compute in HMT. injection HMT as <- <-. cbn. lia.
Defined.

(** The first call at a negative, a zero and a positive interval. *)
Lemma getMtime64_first_call_witness :
  let h := mkHeap (∅ : gmap string value) (∅ : gmap string (Z * Z))
                  (mkWorld 1 {[ "f" := (1000, "contents"%string) ]}) in
  events (getMtime64 (-100) "f" h) = [Stat "f"] ∧
  events (getMtime64 0 "f" h) = [Stat "f"] ∧
  events (getMtime64 10 "f" h) = [Stat "f"].
Proof.
  cbn zeta. split; [|split].
  - apply (getMtime64_first_call (-100) "f"); [reflexivity|cbn; lia|cbn; lia].
  - apply (getMtime64_first_call 0 "f"); [reflexivity|cbn; lia|cbn; lia].
  - apply (getMtime64_first_call 10 "f"); [reflexivity|cbn; lia|cbn; lia].
Defined.

Lemma getMtime64_answer_witness :
  ∃ T, mtimeCache (final (getMtime64 10 "f"
                            (mkHeap (∅ : gmap string value) (∅ : gmap string (Z * Z))
                                    (mkWorld 1 {[ "f" := (1000, "contents"%string) ]}))))
         !! "f" = Some (1000, T).
Proof.
  apply (getMtime64_answer 10 "f"); [cbn; lia|cbn; lia|reflexivity].
Defined.

(** * [cached] around a closure *)

Section ClosureFacts.
Context {A C W : Type} `{!MapLike A value C}.

(** The wrapper around a closure, case by case. *)
Lemma cached_closure_run (fn : A → Eff (C * W) A value) (arg : A) (s : C * W) :
  cached_closure fn arg s =
    if ml_has arg s.1 then (Normal (as_R (ml_get arg s.1)), s, [])
    else match fn arg s with
         | (Normal r, s1, ev) => (Normal r, (ml_set arg r s1.1, s1.2), arg :: ev)
         | (Throw e, s1, ev) => (Throw e, s1, arg :: ev)
         end.
Proof.
  unfold cached_closure, mbind, Eff_bind, eff_bind, gets, invoke_closure, modify, mret,
    Eff_ret, eff_ret.
  cbn. destruct (ml_has arg s.1); [done|].
  destruct (fn arg s) as [[[r|e] s1] ev]; cbn; [|done].
  by rewrite app_nil_r.
Qed.

(** For a function that does not reach the store, the wrapper around the
    closure is [cached]. *)
Lemma cached_closure_oblivious (fn : A → W → completion value * W) (arg : A) (s : C * W) :
  cached_closure (oblivious fn) arg s = cached fn arg s.
Proof.
  destruct s as [c w]. rewrite cached_closure_run, cached_run. unfold oblivious. cbn.
  destruct (ml_has arg c); [done|].
  by destruct (fn arg w) as [[r|e] w'].
Qed.

End ClosureFacts.

Section ClosureMap.
Context {A : Type} `{Countable A} {W : Type}.
Variable fn : A → Eff (gmap A value * W) A value.

(** The wrapper's own writes are confined to the key of its argument,
    also around a closure that reads or writes the store (by calling the
    wrapper again, for instance): after a call, every other key holds
    exactly what [fn] left there (what it held before, on a hit), and
    when the call returns [v] the key of the argument holds [v],
    whatever [fn] itself had stored under it. *)
Theorem cached_closure_own_key (arg : A) (c : gmap A value) (w : W) :
  let r := cached_closure fn arg (c, w) in
  let left := match c !! arg with
              | Some _ => c
              | None => (final (fn arg (c, w))).1
              end in
  (∀ k, k ≠ arg → (final r).1 !! k = left !! k) ∧
  (∀ v, outcome r = Normal v → (final r).1 !! arg = Some v).
Proof.
  cbv zeta. rewrite cached_closure_run. cbn.
  destruct (c !! arg) as [v0|] eqn:Hc; cbn.
  - split; [done|]. by intros v [= <-].
  - destruct (fn arg (c, w)) as [[[r|e] [c1 w1]] ev]; cbn.
    + split.
      * intros k Hk. by rewrite lookup_insert_ne.
      * intros v [= <-]. apply lookup_insert_eq.
    + by split.
Qed.

End ClosureMap.

(** The recursive function memoized under its own name: [fib(10)] on a
    store that holds only the key 20 invokes the function once for each
    of 10, 9, ..., 0, and leaves the keys 0 to 10 beside 20. *)
Example fib_reenters :
  let r := fib (W := unit) 12 10 ({[ 20 := VNumber 6765 ]}, tt) in
  outcome r = Normal (VNumber 55) ∧
  events r = [10; 9; 8; 7; 6; 5; 4; 3; 2; 1; 0] ∧
  (final r).1 =
    list_to_map [(0, VNumber 0); (1, VNumber 1); (2, VNumber 1); (3, VNumber 2);
                 (4, VNumber 3); (5, VNumber 5); (6, VNumber 8); (7, VNumber 13);
                 (8, VNumber 21); (9, VNumber 34); (10, VNumber 55);
                 (20, VNumber 6765)].
Proof. by vm_compute. Qed.

Lemma cached_closure_own_key_witness :
  (final (cached_closure (W := unit) (fib_body (fib 11)) 10
            ({[ 20 := VNumber 6765 ]}, tt))).1 !! 10
  = Some (VNumber 55).
Proof.
  pose proof (cached_closure_own_key (W := unit) (fib_body (fib 11)) 10
                {[ 20 := VNumber 6765 ]} tt) as [_ Hown].
  apply Hown. reflexivity.
Defined.
